(** * glibc_shim.c: the GLIBC compatibility shim for the bb binary

    A shallow embedding of [scripts/glibc-shim/glibc_shim.c] and the
    properties its specification states about it.

    The translation unit defines six functions.  Four of them tail-call the
    host C library ([strtol], [strtoul], [strtoll], [strtoull]); two of them
    assign [errno] and return [-1].  The host C library is not part of the
    repository, so the shim is embedded over an interface ([Stdlib_h],
    [Errno_h]) and every property that only depends on the shim is proved
    for all hosts.  The few statements that speak about concrete results of
    a conversion are settled on a reference model of the host routines
    ([Module Glibc]). *)

From Stdlib Require Import ZArith Ascii String Lia.
From stdpp Require Import base option list gmap.

Local Open Scope Z_scope.

(** ** C objects: pointers, cells, per-thread [errno] *)

Module Mem.

Definition block := positive.
Definition tid := nat.

(** A pointer is [NULL] or an offset into an allocated block. *)
Inductive ptr : Type :=
| NULL
| Ptr (b : block) (off : nat).

#[global] Instance ptr_eq_dec : EqDecision ptr.
Proof. solve_decision. Defined.

(** One storage cell: a [char], an [int], a pointer, or indeterminate. *)
Inductive mval : Type :=
| MChar (c : ascii)
| MInt (i : Z)
| MPtr (p : ptr)
| MUndef.

#[global] Instance mval_eq_dec : EqDecision mval.
Proof. solve_decision. Defined.

(** The state a C function can observe and change: the objects of the
    process and, for each calling thread, its own [errno]. *)
Record world : Type := World {
  heap : gmap block (list mval);
  errno_tls : gmap tid Z
}.

(** [p + n] on a [char *]. *)
Definition ptr_add (p : ptr) (n : nat) : ptr :=
  match p with
  | NULL => NULL
  | Ptr b off => Ptr b (off + n)
  end.

(** [*p] as an rvalue: [None] when [p] does not point into an object. *)
Definition load (w : world) (p : ptr) : option mval :=
  match p with
  | NULL => None
  | Ptr b off => heap w !! b ≫= λ cells, cells !! off
  end.

(** [*p = v]: [None] when [p] does not point into an object. *)
Definition store (w : world) (p : ptr) (v : mval) : option world :=
  match p with
  | NULL => None
  | Ptr b off =>
      match heap w !! b with
      | Some cells =>
          if decide (off < length cells)%nat
          then Some (World (<[b := <[off := v]> cells]> (heap w)) (errno_tls w))
          else None
      | None => None
      end
  end.

(** The value of [errno] as thread [t] sees it (0 until first assigned). *)
Definition errno_of (w : world) (t : tid) : Z :=
  default 0 (errno_tls w !! t).

Definition NUL : ascii := Ascii.zero.

(** The characters of the string that starts at the head of [cells], without
    the terminating null; [None] when no null character ends it. *)
Fixpoint cstring_of (cells : list mval) : option string :=
  match cells with
  | MChar c :: rest =>
      if Ascii.eqb c NUL then Some EmptyString
      else String c <$> cstring_of rest
  | _ => None
  end.

(** The string [p] points to. *)
Definition read_cstring (w : world) (p : ptr) : option string :=
  match p with
  | NULL => None
  | Ptr b off => heap w !! b ≫= λ cells, cstring_of (drop off cells)
  end.

End Mem.
Export Mem.

(** ** Executions of C functions

    A call runs in a calling thread, from a world; it either returns a value
    and a world, or does not return (undefined behaviour, a fault, or a call
    into the host that never comes back): [None]. *)

Definition C (A : Type) : Type := tid → world → option (A * world).

Definition run {A} (m : C A) (t : tid) (w : world) : option (A * world) := m t w.

#[global] Instance C_ret : MRet C := λ A a _ w, Some (a, w).

#[global] Instance C_bind : MBind C := λ A B f m t w,
  match m t w with
  | Some (a, w') => f a t w'
  | None => None
  end.

(** [errno = e;] in the calling thread. *)
Definition set_errno (e : Z) : C unit := λ t w,
  Some (tt, World (heap w) (<[t := e]> (errno_tls w))).

(** Observations on the outcome of a call. *)
Definition returned {A} (r : option (A * world)) : option A := fst <$> r.
Definition final {A} (r : option (A * world)) : option world := snd <$> r.
Definition errno_after {A} (t : tid) (r : option (A * world)) : option Z :=
  (λ w, errno_of w t) <$> final r.
Definition end_position {A} (endptr : ptr) (r : option (A * world)) : option mval :=
  final r ≫= λ w, load w endptr.

(** Whether the call returned at all. *)
Definition returns {A} (r : option (A * world)) : bool :=
  match r with Some _ => true | None => false end.

(** Two outcomes show the caller the same return value and leave the same
    thing in the end-pointer slot. *)
Definition same_value_and_end (endptr : ptr) (r1 r2 : option (Z * world)) : Prop :=
  returned r1 = returned r2 ∧ end_position endptr r1 = end_position endptr r2.

(** ** What the shim includes from the host *)

(** [#include <errno.h>]: the error numbers the shim and its callees name. *)
Class Errno_h : Type := {
  EINVAL : Z;
  ERANGE : Z;
  ENOSYS : Z
}.

(** [#include <stdlib.h>]: the four conversion routines the shim calls. *)
Class Stdlib_h : Type := {
  strtol : ptr → ptr → Z → C Z;
  strtoul : ptr → ptr → Z → C Z;
  strtoll : ptr → ptr → Z → C Z;
  strtoull : ptr → ptr → Z → C Z
}.

(** ** glibc_shim.c *)

Section glibc_shim.
Context {errno_h : Errno_h} {stdlib_h : Stdlib_h}.

(* C23 strto* functions — identical to C99/C11 versions *)
Definition __isoc23_strtol (nptr endptr : ptr) (base : Z) : C Z :=
  r ← strtol nptr endptr base; mret r.

Definition __isoc23_strtoul (nptr endptr : ptr) (base : Z) : C Z :=
  r ← strtoul nptr endptr base; mret r.

Definition __isoc23_strtoll (nptr endptr : ptr) (base : Z) : C Z :=
  r ← strtoll nptr endptr base; mret r.

Definition __isoc23_strtoull (nptr endptr : ptr) (base : Z) : C Z :=
  r ← strtoull nptr endptr base; mret r.

(* pidfd_spawnp and pidfd_getpid — stub implementations *)
Definition pidfd_spawnp (pidfd file file_actions attrp argv envp : ptr) : C Z :=
  set_errno ENOSYS;; mret (-1).

Definition pidfd_getpid (pidfd : Z) : C Z :=
  set_errno ENOSYS;; mret (-1).

End glibc_shim.

(** ** A reference model of the host's conversion routines

    Nothing in this module is translated from the repository: it describes
    the C library of the host, which the shim links against. *)

Module Glibc.

(** Modelled from the spec: the values of [<errno.h>] on the host the shim is
    built for (Linux); the header is not part of the repository. *)
#[global] Instance linux_errno : Errno_h := {|
  EINVAL := 22;
  ERANGE := 34;
  ENOSYS := 38
|}.

(** Modelled from the spec: the host's character type, absent from the
    repository; a [char] as its code in the execution character set. *)
Definition code (c : ascii) : Z := Z.of_N (N_of_ascii c).

(** Modelled from the spec: the host's [isspace] in the C locale, absent from
    the repository: space, and [\t \n \v \f \r]. *)
Definition isspace (c : ascii) : bool :=
  (code c =? 32) || ((9 <=? code c) && (code c <=? 13)).

(** Modelled from the spec: the digits the host's conversions accept, absent
    from the repository: [0-9], then letters of either case from 10. *)
Definition digit_value (c : ascii) : option Z :=
  if (48 <=? code c) && (code c <=? 57) then Some (code c - 48)
  else if (65 <=? code c) && (code c <=? 90) then Some (code c - 65 + 10)
  else if (97 <=? code c) && (code c <=? 122) then Some (code c - 97 + 10)
  else None.

(** Modelled from the spec: the characters the host's conversions single out
    ([x] or [X], [0], [-], [+]), absent from the repository. *)
Definition is_x (c : ascii) : bool := (code c =? 120) || (code c =? 88).
Definition is_zero (c : ascii) : bool := code c =? 48.
Definition is_minus (c : ascii) : bool := code c =? 45.
Definition is_plus (c : ascii) : bool := code c =? 43.

(** Modelled from the spec: the host's skipping of leading white space,
    absent from the repository. *)
Fixpoint skip_spaces (s : string) : string :=
  match s with
  | String c s' => if isspace c then skip_spaces s' else s
  | EmptyString => s
  end.

(** Modelled from the spec: the host's reading of an optional sign, absent
    from the repository: whether it was [-], and what follows it. *)
Definition take_sign (s : string) : bool * string :=
  match s with
  | String c s' =>
      if is_minus c then (true, s')
      else if is_plus c then (false, s')
      else (false, s)
  | EmptyString => (false, s)
  end.

(** Modelled from the spec: the host's prefix handling, absent from the
    repository: the base to convert in and the text after an optional [0x];
    base 0 detects hexadecimal ([0x], [0X]), octal (a leading [0]) and
    decimal. *)
Definition take_prefix (base : Z) (s : string) : Z * string :=
  match s with
  | String c s' =>
      if is_zero c then
        match s' with
        | String x s'' =>
            if ((base =? 0) || (base =? 16)) && is_x x then (16, s'')
            else if base =? 0 then (8, s) else (base, s)
        | EmptyString => if base =? 0 then (8, s) else (base, s)
        end
      else if base =? 0 then (10, s) else (base, s)
  | EmptyString => if base =? 0 then (10, s) else (base, s)
  end.

(** Modelled from the spec: the host's digit loop, absent from the
    repository: the longest run of digits of [base], accumulated from [acc],
    and the first character that is not one. *)
Fixpoint digits (base : Z) (s : string) (acc : Z) : Z * string :=
  match s with
  | String c s' =>
      match digit_value c with
      | Some d => if d <? base then digits base s' (acc * base + d) else (acc, s)
      | None => (acc, s)
      end
  | EmptyString => (acc, s)
  end.

(** Modelled from the spec: the subject sequence the host's [strtol] family
    recognises (ISO C 7.22.1.4 as glibc implements it; the routine is not in
    the repository).  The result is the sign, the magnitude as a mathematical
    integer, and how many characters past [nptr] the conversion ended.  When
    nothing converts the end is [nptr] itself, except after a [0x] that no
    hexadecimal digit follows, where the [0] is the number and the end is the
    [x]. *)
Definition parse (base : Z) (s : string) : bool * Z * nat :=
  let s1 := skip_spaces s in
  let '(negative, s2) := take_sign s1 in
  let '(base', save) := take_prefix base s2 in
  let '(i, s3) := digits base' save 0 in
  if (String.length s3 =? String.length save)%nat then
    if (String.length save <? String.length s2)%nat
    then (false, 0, (String.length s - String.length save - 1)%nat)
    else (false, 0, 0%nat)
  else (negative, i, (String.length s - String.length s3)%nat).

(** Modelled from the spec: the host's range check, absent from the
    repository: the value returned for a magnitude and sign, and whether it
    was out of range for the [bits]-wide result type.  A signed result
    saturates at its limits; an unsigned one saturates at its maximum and
    negates modulo [2 ^ bits]. *)
Definition convert (signed : bool) (bits : Z) (negative : bool) (i : Z) : Z * bool :=
  if signed then
    if negative then
      if 2 ^ (bits - 1) <? i then (- 2 ^ (bits - 1), true) else (- i, false)
    else
      if 2 ^ (bits - 1) - 1 <? i then (2 ^ (bits - 1) - 1, true) else (i, false)
  else
    if 2 ^ bits - 1 <? i then (2 ^ bits - 1, true)
    else ((if negative then - i else i) mod 2 ^ bits, false).

(** Modelled from the spec: its "malformed input", for routines absent from
    the repository: after optional white space and an optional sign, the
    next character is not a digit of the base (for base 0, not a decimal
    digit), so there is nothing to convert. *)
Definition no_digits (base : Z) (s : string) : bool :=
  match (take_sign (skip_spaces s)).2 with
  | String c _ =>
      match digit_value c with
      | Some d => negb (d <? (if base =? 0 then 10 else base))
      | None => true
      end
  | EmptyString => true
  end.

(** Modelled from the spec: its "numeric base (0 or 2-36)", the bases the
    host routines, absent from the repository, are specified for. *)
Definition valid_base (base : Z) : bool :=
  (base =? 0) || ((2 <=? base) && (base <=? 36)).

(** Modelled from the spec: the host's reading of its string argument, absent
    from the repository: undefined unless [nptr] points to a string. *)
Definition get_string (nptr : ptr) : C string := λ _ w,
  (λ s, (s, w)) <$> read_cstring w nptr.

(** Modelled from the spec: the host's store of the end position, absent from
    the repository: [if (endptr != NULL) *endptr = (char * ) p;] *)
Definition set_end (endptr p : ptr) : C unit := λ _ w,
  if decide (endptr = NULL) then Some (tt, w)
  else (λ w', (tt, w')) <$> store w endptr (MPtr p).

(** Modelled from the spec: the host's [strtol], [strtoul], [strtoll] and
    [strtoull] (glibc, C locale), which the shim calls and the repository
    does not contain.  An invalid base sets [EINVAL] and returns 0 without
    touching the string or the end pointer; otherwise the end pointer, when
    not null, receives the address of the first unconverted character, and an
    out-of-range value sets [ERANGE] and returns the nearest limit. *)
Definition strto (signed : bool) (bits : Z) (nptr endptr : ptr) (base : Z) : C Z :=
  if valid_base base then
    s ← get_string nptr;
    let '(negative, i, e) := parse base s in
    let '(v, overflow) := convert signed bits negative i in
    set_end endptr (ptr_add nptr e);;
    (if overflow then set_errno ERANGE else mret tt);;
    mret v
  else
    set_errno EINVAL;; mret 0.

(** Modelled from the spec: [<stdlib.h>] of an LP64 glibc host, where [long]
    and [long long] are both 64 bits wide. *)
#[global] Instance lp64 : Stdlib_h := {|
  strtol := strto true 64;
  strtoul := strto false 64;
  strtoll := strto true 64;
  strtoull := strto false 64
|}.

End Glibc.

(** ** The four conversions, indexed *)

Inductive conversion : Type := to_long | to_ulong | to_llong | to_ullong.

(** The entry point the shim exports for each result type. *)
Definition shimmed {stdlib_h : Stdlib_h} (k : conversion) : ptr → ptr → Z → C Z :=
  match k with
  | to_long => __isoc23_strtol
  | to_ulong => __isoc23_strtoul
  | to_llong => __isoc23_strtoll
  | to_ullong => __isoc23_strtoull
  end.

(** The host routine that entry point calls. *)
Definition underlying {stdlib_h : Stdlib_h} (k : conversion) : ptr → ptr → Z → C Z :=
  match k with
  | to_long => strtol
  | to_ulong => strtoul
  | to_llong => strtoll
  | to_ullong => strtoull
  end.

(** ** Sample worlds: one string and one pointer slot *)

Definition cells_of (s : string) : list mval :=
  (MChar <$> list_ascii_of_string s) ++ [MChar NUL].

Definition world_with (s : string) : world :=
  World (<[2%positive := [MUndef]]> {[1%positive := cells_of s]}) ∅.

Definition text_ptr : ptr := Ptr 1%positive 0%nat.
Definition slot_ptr : ptr := Ptr 2%positive 0%nat.

(** ** Generic facts: the monad and the shim over any host *)

Section forwarding.
Context {errno_h : Errno_h} {stdlib_h : Stdlib_h}.

Lemma run_bind_mret {A} (m : C A) t w : run (r ← m; mret r) t w = run m t w.
Proof.
  unfold run, mbind, C_bind, mret, C_ret.
  destruct (m t w) as [[a w']|]; reflexivity.
Qed.

Lemma strtol_forwarded nptr endptr base t w :
  run (__isoc23_strtol nptr endptr base) t w = run (strtol nptr endptr base) t w.
Proof. apply run_bind_mret. Qed.

Lemma strtoul_forwarded nptr endptr base t w :
  run (__isoc23_strtoul nptr endptr base) t w = run (strtoul nptr endptr base) t w.
Proof. apply run_bind_mret. Qed.

Lemma strtoll_forwarded nptr endptr base t w :
  run (__isoc23_strtoll nptr endptr base) t w = run (strtoll nptr endptr base) t w.
Proof. apply run_bind_mret. Qed.

Lemma strtoull_forwarded nptr endptr base t w :
  run (__isoc23_strtoull nptr endptr base) t w = run (strtoull nptr endptr base) t w.
Proof. apply run_bind_mret. Qed.

Lemma shimmed_forwards k nptr endptr base t w :
  run (shimmed k nptr endptr base) t w = run (underlying k nptr endptr base) t w.
Proof. destruct k; apply run_bind_mret. Qed.

Lemma pidfd_spawnp_run pidfd file file_actions attrp argv envp t w :
  run (pidfd_spawnp pidfd file file_actions attrp argv envp) t w
  = Some (-1, World (heap w) (<[t := ENOSYS]> (errno_tls w))).
Proof. reflexivity. Qed.

Lemma pidfd_getpid_run pidfd t w :
  run (pidfd_getpid pidfd) t w
  = Some (-1, World (heap w) (<[t := ENOSYS]> (errno_tls w))).
Proof. reflexivity. Qed.

End forwarding.

Lemma errno_of_set w t e :
  errno_of (World (heap w) (<[t := e]> (errno_tls w))) t = e.
Proof. unfold errno_of; simpl. by rewrite lookup_insert_eq. Qed.

Lemma errno_of_set_other w t t' e :
  t' ≠ t → errno_of (World (heap w) (<[t := e]> (errno_tls w))) t' = errno_of w t'.
Proof. intros Hne. unfold errno_of; simpl. by rewrite lookup_insert_ne. Qed.

(** Equal [errno] maps away from [t] mean every other thread reads the same
    [errno]. *)
Lemma errno_frame w w' t t' :
  delete t (errno_tls w') = delete t (errno_tls w) →
  t' ≠ t → errno_of w' t' = errno_of w t'.
Proof.
  intros Hd Hne. unfold errno_of.
  rewrite <- (lookup_delete_ne (errno_tls w') t t') by done.
  rewrite <- (lookup_delete_ne (errno_tls w) t t') by done.
  by rewrite Hd.
Qed.

(** ** Memory: loads after stores, and where a string ends *)

Lemma store_valid w p v :
  is_Some (load w p) →
  ∃ w', store w p v = Some w' ∧ load w' p = Some v
        ∧ errno_tls w' = errno_tls w.
Proof.
  destruct p as [|b off]; simpl; intros [x Hx]; [discriminate|].
  destruct (heap w !! b) as [cells|] eqn:Hb; simpl in Hx; [|discriminate].
  apply lookup_lt_Some in Hx.
  destruct (decide (off < length cells)%nat) as [Hlt|]; [|lia].
  eexists; split; [reflexivity|]. simpl.
  rewrite lookup_insert_eq. simpl.
  split; [by apply list_lookup_insert_eq | reflexivity].
Qed.

Lemma cstring_of_terminator cells s :
  cstring_of cells = Some s → cells !! String.length s = Some (MChar NUL).
Proof.
  revert s. induction cells as [|m cells IH]; intros s; simpl; [discriminate|].
  destruct m as [c| | |]; try discriminate.
  destruct (Ascii.eqb c NUL) eqn:Hc.
  - intros [= <-]. apply Ascii.eqb_eq in Hc. by subst c.
  - destruct (cstring_of cells) as [s'|]; simpl; [|discriminate].
    intros [= <-]. simpl. by apply IH.
Qed.

Lemma read_cstring_terminator w p s :
  read_cstring w p = Some s →
  load w (ptr_add p (String.length s)) = Some (MChar NUL).
Proof.
  destruct p as [|b off]; simpl; [discriminate|].
  destruct (heap w !! b) as [cells|]; simpl; [|discriminate].
  intros Hs. apply cstring_of_terminator in Hs.
  by rewrite lookup_drop in Hs.
Qed.

Lemma read_cstring_not_null w p s : read_cstring w p = Some s → p ≠ NULL.
Proof. by destruct p. Qed.

Lemma ptr_add_0 p : ptr_add p 0 = p.
Proof. destruct p as [|b off]; simpl; [done|]. by rewrite Nat.add_0_r. Qed.

(** ** The reference model: what a call of [strto] comes to *)

Module GlibcFacts.
Import Glibc.

(** A call with a valid base on a readable string, whose value is in range:
    the value is returned, [errno] is left alone, and the end goes to the
    slot when there is one. *)
Lemma strto_in_range signed bits nptr endptr base s negative i e v t w :
  valid_base base = true →
  read_cstring w nptr = Some s →
  parse base s = (negative, i, e) →
  convert signed bits negative i = (v, false) →
  endptr = NULL ∨ is_Some (load w endptr) →
  ∃ w', run (strto signed bits nptr endptr base) t w = Some (v, w')
        ∧ (endptr ≠ NULL → load w' endptr = Some (MPtr (ptr_add nptr e)))
        ∧ errno_tls w' = errno_tls w.
Proof.
  intros Hb Hs Hp Hc Hslot.
  unfold strto, run. rewrite Hb.
  unfold mbind, C_bind, get_string. rewrite Hs. simpl. rewrite Hp, Hc.
  unfold set_end.
  destruct (decide (endptr = NULL)) as [->|Hne].
  - exists w. simpl. split; [reflexivity|]. split; [done|reflexivity].
  - destruct Hslot as [?|Hv]; [done|].
    destruct (store_valid w endptr (MPtr (ptr_add nptr e)) Hv)
      as (w' & Hst & Hld & Herr).
    exists w'. rewrite Hst. simpl. split; [reflexivity|]. split; [done|done].
Qed.

(** With a null end pointer nothing is stored: whatever the call returns,
    the objects of the process are as before. *)
Lemma strto_null_heap signed bits nptr base t w v w' :
  run (strto signed bits nptr NULL base) t w = Some (v, w') →
  heap w' = heap w.
Proof.
  unfold strto, run.
  destruct (valid_base base).
  - unfold mbind, C_bind, get_string.
    destruct (read_cstring w nptr) as [s|]; simpl; [|discriminate].
    destruct (parse base s) as [[negative i] e].
    destruct (convert signed bits negative i) as [v0 [|]]; simpl;
      by intros [= _ <-].
  - simpl. by intros [= _ <-].
Qed.

(** The value returned does not depend on the end pointer passed. *)
Lemma strto_null_value signed bits nptr endptr base t w v w' :
  run (strto signed bits nptr endptr base) t w = Some (v, w') →
  returned (run (strto signed bits nptr NULL base) t w) = Some v.
Proof.
  unfold strto, run, returned.
  destruct (valid_base base).
  - unfold mbind, C_bind, get_string.
    destruct (read_cstring w nptr) as [s|]; simpl; [|discriminate].
    destruct (parse base s) as [[negative i] e].
    destruct (convert signed bits negative i) as [v0 ov].
    unfold set_end. destruct (decide (endptr = NULL)) as [|Hne]; simpl.
    + destruct ov; simpl; by intros [= <- _].
    + destruct (store w endptr (MPtr (ptr_add nptr e))); simpl; [|discriminate].
      destruct ov; simpl; by intros [= <- _].
  - simpl. by intros [= <- _].
Qed.

Lemma is_zero_digit c : is_zero c = true → digit_value c = Some 0.
Proof.
  unfold is_zero, digit_value. intros Hc%Z.eqb_eq. rewrite Hc. reflexivity.
Qed.

Lemma take_prefix_other base c s :
  is_zero c = false →
  take_prefix base (String c s) = (if base =? 0 then 10 else base, String c s).
Proof. unfold take_prefix. intros ->. by destruct (base =? 0). Qed.

Lemma valid_base_effective base :
  valid_base base = true → 2 ≤ (if base =? 0 then 10 else base).
Proof.
  unfold valid_base. destruct (Z.eqb_spec base 0) as [->|]; simpl; lia.
Qed.

(** Nothing to convert: the magnitude is zero and the end is the start. *)
Lemma parse_no_digits base s :
  valid_base base = true → no_digits base s = true →
  parse base s = (false, 0, 0%nat).
Proof.
  intros Hb%valid_base_effective. unfold no_digits, parse.
  destruct (take_sign (skip_spaces s)) as [negative s2]. simpl.
  destruct s2 as [|c s2].
  - simpl. by destruct (base =? 0).
  - intros Hd.
    assert (is_zero c = false) as Hz.
    { destruct (is_zero c) eqn:Hz; [|done].
      rewrite (is_zero_digit _ Hz) in Hd.
      apply negb_true_iff, Z.ltb_ge in Hd. lia. }
    rewrite (take_prefix_other _ _ _ Hz).
    set (b := if base =? 0 then 10 else base) in *.
    assert (digits b (String c s2) 0 = (0, String c s2)) as ->.
    { simpl. destruct (digit_value c) as [d|]; [|done].
      apply negb_true_iff in Hd. by rewrite Hd. }
    by rewrite Nat.eqb_refl, Nat.ltb_irrefl.
Qed.

(** Zero is in range for every result type. *)
Lemma convert_zero signed : convert signed 64 false 0 = (0, false).
Proof. by destruct signed. Qed.

Lemma shimmed_lp64 k nptr endptr base t w :
  run (shimmed k nptr endptr base) t w
  = run (strto (match k with to_long | to_llong => true | _ => false end) 64
           nptr endptr base) t w.
Proof. rewrite shimmed_forwards. by destruct k. Qed.

End GlibcFacts.

(** ** The shim over any host *)

Section shim_properties.
Context {errno_h : Errno_h} {stdlib_h : Stdlib_h}.

(** C1. Forwarding equivalence: for every string pointer, end-pointer slot
    and base, each of [__isoc23_strtol], [__isoc23_strtoul],
    [__isoc23_strtoll] and [__isoc23_strtoull] returns what [strtol],
    [strtoul], [strtoll] and [strtoull] return on the same arguments, and
    leaves the same end position in the slot. *)
Theorem shim_forwarding_equivalence nptr endptr base t w :
  same_value_and_end endptr
    (run (__isoc23_strtol nptr endptr base) t w) (run (strtol nptr endptr base) t w)
  ∧ same_value_and_end endptr
    (run (__isoc23_strtoul nptr endptr base) t w) (run (strtoul nptr endptr base) t w)
  ∧ same_value_and_end endptr
    (run (__isoc23_strtoll nptr endptr base) t w) (run (strtoll nptr endptr base) t w)
  ∧ same_value_and_end endptr
    (run (__isoc23_strtoull nptr endptr base) t w) (run (strtoull nptr endptr base) t w).
Proof.
  unfold same_value_and_end.
  rewrite strtol_forwarded, strtoul_forwarded, strtoll_forwarded,
    strtoull_forwarded.
  repeat split.
Qed.

(** C2. Whatever the arguments, null pointers included, [pidfd_spawnp]
    returns [-1] and the caller's [errno] is [ENOSYS] afterwards. *)
Theorem pidfd_spawnp_not_implemented pidfd file file_actions attrp argv envp t w :
  ∃ w', run (pidfd_spawnp pidfd file file_actions attrp argv envp) t w = Some (-1, w')
        ∧ errno_of w' t = ENOSYS.
Proof.
  eexists. split; [apply pidfd_spawnp_run|]. apply errno_of_set.
Qed.

(** C3. For every descriptor value, and so for 42, [pidfd_getpid] returns
    [-1] and the caller's [errno] is [ENOSYS] afterwards. *)
Theorem pidfd_getpid_not_implemented t w :
  (∀ pidfd, ∃ w', run (pidfd_getpid pidfd) t w = Some (-1, w')
                  ∧ errno_of w' t = ENOSYS)
  ∧ (∃ w', run (pidfd_getpid 42) t w = Some (-1, w') ∧ errno_of w' t = ENOSYS).
Proof.
  assert (∀ pidfd, ∃ w', run (pidfd_getpid pidfd) t w = Some (-1, w')
                         ∧ errno_of w' t = ENOSYS) as Hall.
  { intros pidfd. eexists. split; [apply pidfd_getpid_run|]. apply errno_of_set. }
  split; [exact Hall | apply Hall].
Qed.

(** C7. The stubs change nothing but the calling thread's [errno]: every
    object reads as before, the cell [pidfd] points to among them, and the
    [errno] of every other thread is as it was. *)
Theorem stubs_write_only_errno pidfd file file_actions attrp argv envp fd t w :
  (∃ w', final (run (pidfd_spawnp pidfd file file_actions attrp argv envp) t w) = Some w'
         ∧ heap w' = heap w
         ∧ load w' pidfd = load w pidfd
         ∧ (∀ p, load w' p = load w p)
         ∧ delete t (errno_tls w') = delete t (errno_tls w))
  ∧ (∃ w', final (run (pidfd_getpid fd) t w) = Some w'
           ∧ heap w' = heap w
           ∧ (∀ p, load w' p = load w p)
           ∧ delete t (errno_tls w') = delete t (errno_tls w)).
Proof.
  rewrite pidfd_spawnp_run, pidfd_getpid_run. simpl.
  split; eexists; (split; [reflexivity|]); simpl;
    repeat split; by rewrite ?delete_insert_eq.
Qed.

(** C8. The wrappers add no error of their own: after a shimmed call the
    caller's [errno], like the whole world, is what the underlying routine
    left, so an error it reported reaches the caller unchanged. *)
Theorem shim_propagates_errno nptr endptr base t w :
  (errno_after t (run (__isoc23_strtol nptr endptr base) t w)
     = errno_after t (run (strtol nptr endptr base) t w)
   ∧ final (run (__isoc23_strtol nptr endptr base) t w)
     = final (run (strtol nptr endptr base) t w))
  ∧ (errno_after t (run (__isoc23_strtoul nptr endptr base) t w)
     = errno_after t (run (strtoul nptr endptr base) t w)
   ∧ final (run (__isoc23_strtoul nptr endptr base) t w)
     = final (run (strtoul nptr endptr base) t w))
  ∧ (errno_after t (run (__isoc23_strtoll nptr endptr base) t w)
     = errno_after t (run (strtoll nptr endptr base) t w)
   ∧ final (run (__isoc23_strtoll nptr endptr base) t w)
     = final (run (strtoll nptr endptr base) t w))
  ∧ (errno_after t (run (__isoc23_strtoull nptr endptr base) t w)
     = errno_after t (run (strtoull nptr endptr base) t w)
   ∧ final (run (__isoc23_strtoull nptr endptr base) t w)
     = final (run (strtoull nptr endptr base) t w)).
Proof.
  rewrite strtol_forwarded, strtoul_forwarded, strtoll_forwarded,
    strtoull_forwarded.
  repeat split.
Qed.

(** C9. Every entry point returns: the two stubs on every input, and each
    wrapper exactly when the routine it calls does. *)
Theorem entry_points_return nptr endptr base pidfd file file_actions attrp argv envp fd t w :
  returns (run (pidfd_spawnp pidfd file file_actions attrp argv envp) t w) = true
  ∧ returns (run (pidfd_getpid fd) t w) = true
  ∧ returns (run (__isoc23_strtol nptr endptr base) t w)
    = returns (run (strtol nptr endptr base) t w)
  ∧ returns (run (__isoc23_strtoul nptr endptr base) t w)
    = returns (run (strtoul nptr endptr base) t w)
  ∧ returns (run (__isoc23_strtoll nptr endptr base) t w)
    = returns (run (strtoll nptr endptr base) t w)
  ∧ returns (run (__isoc23_strtoull nptr endptr base) t w)
    = returns (run (strtoull nptr endptr base) t w).
Proof.
  rewrite strtol_forwarded, strtoul_forwarded, strtoll_forwarded,
    strtoull_forwarded.
  repeat split.
Qed.

End shim_properties.

(** ** The shim on the reference host *)

Section on_glibc.
Import Glibc GlibcFacts.
Local Open Scope string_scope.

(** The subject sequences of the scenarios, and of a few neighbours. *)
Example parse_decimal : parse 10 "123" = (false, 123, 3%nat).
Proof. reflexivity. Qed.

Example parse_hex_auto : parse 0 "0x1F" = (false, 31, 4%nat).
Proof. reflexivity. Qed.

Example parse_octal_auto : parse 0 "  -017z" = (true, 15, 6%nat).
Proof. reflexivity. Qed.

Example parse_hex_prefix_alone : parse 16 "0xg" = (false, 0, 1%nat).
Proof. reflexivity. Qed.

Example parse_empty : parse 10 EmptyString = (false, 0, 0%nat).
Proof. reflexivity. Qed.

(** An out-of-range value: the host reports [ERANGE], and that is what the
    caller of the shim finds in [errno], with [LONG_MAX] returned. *)
Example erange_reaches_caller :
  let r := run (__isoc23_strtol text_ptr slot_ptr 10) 0%nat
             (world_with "9223372036854775808") in
  returned r = Some (2 ^ 63 - 1) ∧ errno_after 0%nat r = Some ERANGE.
Proof. split; reflexivity. Qed.

(** C4. On the string "123" with base 10 each shimmed conversion returns 123
    and, when an end-pointer slot is supplied, leaves in it the address of
    the terminating null of the input, three characters past the start. *)
Theorem converts_decimal_123 k nptr endptr t w :
  read_cstring w nptr = Some "123" →
  endptr = NULL ∨ is_Some (load w endptr) →
  ∃ w', run (shimmed (stdlib_h := lp64) k nptr endptr 10) t w = Some (123, w')
        ∧ (endptr ≠ NULL → load w' endptr = Some (MPtr (ptr_add nptr 3)))
        ∧ load w (ptr_add nptr 3) = Some (MChar NUL).
Proof.
  intros Hs Hslot. rewrite shimmed_lp64.
  destruct (strto_in_range
              (match k with to_long | to_llong => true | _ => false end) 64
              nptr endptr 10 "123" false 123 3 123 t w)
    as (w' & Hrun & Hend & _); try done.
  { by destruct k. }
  exists w'. split; [done|]. split; [done|].
  apply (read_cstring_terminator _ _ _ Hs).
Qed.

Lemma converts_decimal_123_witness :
  ∃ w', run (shimmed (stdlib_h := lp64) to_long text_ptr slot_ptr 10) 0%nat
          (world_with "123") = Some (123, w')
        ∧ (slot_ptr ≠ NULL → load w' slot_ptr = Some (MPtr (ptr_add text_ptr 3)))
        ∧ load (world_with "123") (ptr_add text_ptr 3) = Some (MChar NUL).
Proof.
  apply (converts_decimal_123 to_long text_ptr slot_ptr 0%nat (world_with "123")).
  - reflexivity.
  - right. eexists. reflexivity.
Defined.

(** C5. On the string "0x1F" with base 0 each shimmed conversion detects the
    hexadecimal prefix and returns 31 and, when an end-pointer slot is
    supplied, leaves in it the address of the terminating null, four
    characters past the start. *)
Theorem converts_hex_0x1F k nptr endptr t w :
  read_cstring w nptr = Some "0x1F" →
  endptr = NULL ∨ is_Some (load w endptr) →
  ∃ w', run (shimmed (stdlib_h := lp64) k nptr endptr 0) t w = Some (31, w')
        ∧ (endptr ≠ NULL → load w' endptr = Some (MPtr (ptr_add nptr 4)))
        ∧ load w (ptr_add nptr 4) = Some (MChar NUL).
Proof.
  intros Hs Hslot. rewrite shimmed_lp64.
  destruct (strto_in_range
              (match k with to_long | to_llong => true | _ => false end) 64
              nptr endptr 0 "0x1F" false 31 4 31 t w)
    as (w' & Hrun & Hend & _); try done.
  { by destruct k. }
  exists w'. split; [done|]. split; [done|].
  apply (read_cstring_terminator _ _ _ Hs).
Qed.

Lemma converts_hex_0x1F_witness :
  ∃ w', run (shimmed (stdlib_h := lp64) to_long text_ptr slot_ptr 0) 0%nat
          (world_with "0x1F") = Some (31, w')
        ∧ (slot_ptr ≠ NULL → load w' slot_ptr = Some (MPtr (ptr_add text_ptr 4)))
        ∧ load (world_with "0x1F") (ptr_add text_ptr 4) = Some (MChar NUL).
Proof.
  apply (converts_hex_0x1F to_long text_ptr slot_ptr 0%nat (world_with "0x1F")).
  - reflexivity.
  - right. eexists. reflexivity.
Defined.

(** C6. Malformed input is not a failure: when the base is 0 or 2 to 36 and
    no digit of the base follows the optional white space and sign, each
    shimmed conversion returns, with value 0, the end pointer (when a slot
    is supplied) equal to the start pointer, and [errno] untouched.  The
    empty string with base 10 is such an input. *)
Theorem malformed_input_yields_zero k nptr endptr base s t w :
  valid_base base = true →
  read_cstring w nptr = Some s →
  no_digits base s = true →
  endptr = NULL ∨ is_Some (load w endptr) →
  (∃ w', run (shimmed (stdlib_h := lp64) k nptr endptr base) t w = Some (0, w')
         ∧ (endptr ≠ NULL → load w' endptr = Some (MPtr nptr))
         ∧ errno_of w' t = errno_of w t)
  ∧ valid_base 10 = true ∧ no_digits 10 EmptyString = true.
Proof.
  intros Hb Hs Hno Hslot. split; [|done]. rewrite shimmed_lp64.
  destruct (strto_in_range
              (match k with to_long | to_llong => true | _ => false end) 64
              nptr endptr base s false 0 0 0 t w)
    as (w' & Hrun & Hend & Herr); try done.
  { by apply parse_no_digits. }
  { apply convert_zero. }
  exists w'. split; [done|]. split.
  - intros Hne. rewrite (Hend Hne). by rewrite ptr_add_0.
  - unfold errno_of. by rewrite Herr.
Qed.

Lemma malformed_input_yields_zero_witness :
  (∃ w', run (shimmed (stdlib_h := lp64) to_long text_ptr slot_ptr 10) 0%nat
           (world_with EmptyString) = Some (0, w')
         ∧ (slot_ptr ≠ NULL → load w' slot_ptr = Some (MPtr text_ptr))
         ∧ errno_of w' 0%nat = errno_of (world_with EmptyString) 0%nat)
  ∧ valid_base 10 = true ∧ no_digits 10 EmptyString = true.
Proof.
  apply (malformed_input_yields_zero to_long text_ptr slot_ptr 10 EmptyString
           0%nat (world_with EmptyString)).
  - reflexivity.
  - reflexivity.
  - reflexivity.
  - right. eexists. reflexivity.
Defined.

(** On a readable string the reference routine returns, whatever the base,
    with a null end pointer as with a slot that is an object. *)
Lemma strto_returns signed bits nptr endptr base s t w :
  read_cstring w nptr = Some s →
  endptr = NULL ∨ is_Some (load w endptr) →
  is_Some (run (strto signed bits nptr endptr base) t w).
Proof.
  intros Hs Hslot. unfold strto, run.
  destruct (valid_base base); [|by eexists].
  unfold mbind, C_bind, get_string. rewrite Hs. simpl.
  destruct (parse base s) as [[negative i] e].
  destruct (convert signed bits negative i) as [v ov].
  unfold set_end. destruct (decide (endptr = NULL)) as [->|Hne].
  - destruct ov; by eexists.
  - destruct Hslot as [?|Hv]; [done|].
    destruct (store_valid w endptr (MPtr (ptr_add nptr e)) Hv)
      as (w1 & -> & _ & _).
    destruct ov; by eexists.
Qed.

(** C10. A null end pointer is safe.  For every host, string pointer, base,
    thread and world, each shimmed conversion hands the null to the host
    routine as it is.  On the reference host, when [nptr] points to a string
    the call with a null end pointer returns, stores nothing (every object
    of the process is as it was before the call), and its value is the very
    value the call returns when given any end-pointer slot that is an
    object. *)
Theorem null_endptr_is_safe k nptr endptr base s t w :
  read_cstring w nptr = Some s →
  is_Some (load w endptr) →
  (∀ (host : Stdlib_h) k' nptr' base' t' w',
      run (shimmed (stdlib_h := host) k' nptr' NULL base') t' w'
      = run (underlying (stdlib_h := host) k' nptr' NULL base') t' w')
  ∧ ∃ v w0 w1,
      run (shimmed (stdlib_h := lp64) k nptr NULL base) t w = Some (v, w0)
      ∧ heap w0 = heap w
      ∧ (∀ p, load w0 p = load w p)
      ∧ run (shimmed (stdlib_h := lp64) k nptr endptr base) t w = Some (v, w1).
Proof.
  intros Hs Hslot. split; [intros; apply shimmed_forwards|].
  rewrite !shimmed_lp64.
  set (signed := match k with to_long | to_llong => true | _ => false end).
  destruct (strto_returns signed 64 nptr endptr base s t w Hs (or_intror Hslot))
    as [[v w1] Hrun].
  pose proof (strto_null_value _ _ _ _ _ _ _ _ _ Hrun) as Hval.
  destruct (run (strto signed 64 nptr NULL base) t w) as [[v0 w0]|] eqn:Hnull;
    [|discriminate].
  injection Hval as ->. exists v, w0, w1.
  apply strto_null_heap in Hnull.
  split; [done|]. split; [done|]. split; [|done].
  intros p. unfold load. by rewrite Hnull.
Qed.

Lemma null_endptr_is_safe_witness :
  read_cstring (world_with "123") text_ptr = Some "123"
  ∧ is_Some (load (world_with "123") slot_ptr)
  ∧ (∀ (host : Stdlib_h) k' nptr' base' t' w',
        run (shimmed (stdlib_h := host) k' nptr' NULL base') t' w'
        = run (underlying (stdlib_h := host) k' nptr' NULL base') t' w')
  ∧ ∃ v w0 w1,
      run (shimmed (stdlib_h := lp64) to_ulong text_ptr NULL 10) 0%nat
        (world_with "123") = Some (v, w0)
      ∧ heap w0 = heap (world_with "123")
      ∧ (∀ p, load w0 p = load (world_with "123") p)
      ∧ run (shimmed (stdlib_h := lp64) to_ulong text_ptr slot_ptr 10) 0%nat
          (world_with "123") = Some (v, w1).
Proof.
  split; [reflexivity|]. split; [eexists; reflexivity|].
  apply (null_endptr_is_safe to_ulong text_ptr slot_ptr 10 "123" 0%nat
           (world_with "123")).
  - reflexivity.
  - eexists. reflexivity.
Defined.

End on_glibc.

(** ** Further properties of the six entry points *)

Section composition.
Context {errno_h : Errno_h} {stdlib_h : Stdlib_h}.

(** X1. A caller cannot tell a wrapper from the routine it forwards to:
    whatever the caller does next with the result, the whole computation
    has the same outcome with [__isoc23_strtoX] as with [strtoX]. *)
Theorem wrappers_interchangeable_in_context
    {B} (k : Z → C B) nptr endptr base t w :
  run (x ← __isoc23_strtol nptr endptr base; k x) t w
    = run (x ← strtol nptr endptr base; k x) t w
  ∧ run (x ← __isoc23_strtoul nptr endptr base; k x) t w
    = run (x ← strtoul nptr endptr base; k x) t w
  ∧ run (x ← __isoc23_strtoll nptr endptr base; k x) t w
    = run (x ← strtoll nptr endptr base; k x) t w
  ∧ run (x ← __isoc23_strtoull nptr endptr base; k x) t w
    = run (x ← strtoull nptr endptr base; k x) t w.
Proof.
  unfold run, __isoc23_strtol, __isoc23_strtoul, __isoc23_strtoll,
    __isoc23_strtoull, mbind, C_bind, mret, C_ret.
  repeat split.
  - by destruct (strtol nptr endptr base t w) as [[v w']|].
  - by destruct (strtoul nptr endptr base t w) as [[v w']|].
  - by destruct (strtoll nptr endptr base t w) as [[v w']|].
  - by destruct (strtoull nptr endptr base t w) as [[v w']|].
Qed.

(** X2. The stubs never look at their arguments or at memory: with any two
    argument lists, and from any two worlds whose [errno] tables agree, a
    call returns the same value and leaves the same [errno] table; and
    [pidfd_spawnp] and [pidfd_getpid] are indistinguishable in that
    respect. *)
Theorem stubs_ignore_arguments_and_memory
    pidfd file file_actions attrp argv envp
    pidfd' file' file_actions' attrp' argv' envp' fd fd' t w1 w2 :
  errno_tls w1 = errno_tls w2 →
  let tls r := errno_tls <$> final r in
  let spawn1 := run (pidfd_spawnp pidfd file file_actions attrp argv envp) t w1 in
  let spawn2 := run (pidfd_spawnp pidfd' file' file_actions' attrp' argv' envp') t w2 in
  let get1 := run (pidfd_getpid fd) t w1 in
  let get2 := run (pidfd_getpid fd') t w2 in
  (returned spawn1 = returned spawn2 ∧ tls spawn1 = tls spawn2)
  ∧ (returned get1 = returned get2 ∧ tls get1 = tls get2)
  ∧ (returned spawn1 = returned get2 ∧ tls spawn1 = tls get2).
Proof.
  intros Heq. cbv zeta. rewrite !pidfd_spawnp_run, !pidfd_getpid_run. simpl.
  rewrite Heq. repeat split.
Qed.

(** X3. Failing twice is failing once: in one thread, a stub call that
    follows another stub call returns [-1] again and leaves exactly the
    world the first call left. *)
Theorem stubs_idempotent
    pidfd file file_actions attrp argv envp
    pidfd' file' file_actions' attrp' argv' envp' fd fd' t w :
  let spawn := pidfd_spawnp pidfd file file_actions attrp argv envp in
  let spawn' := pidfd_spawnp pidfd' file' file_actions' attrp' argv' envp' in
  run (spawn;; spawn') t w = run spawn t w
  ∧ run (pidfd_getpid fd;; pidfd_getpid fd') t w = run (pidfd_getpid fd) t w
  ∧ run (spawn;; pidfd_getpid fd) t w = run spawn t w
  ∧ run (pidfd_getpid fd;; spawn) t w = run (pidfd_getpid fd) t w.
Proof.
  cbv zeta. unfold run, pidfd_spawnp, pidfd_getpid, mbind, C_bind, mret, C_ret,
    set_errno. simpl. rewrite insert_insert_eq. repeat split.
Qed.

(** X4. Stub calls made from two calling threads do not interfere: the
    world after a [pidfd_spawnp] in thread [t1] and a [pidfd_getpid] in
    thread [t2] is the same in either order, both calls return, and each
    thread then reads [ENOSYS] from its own [errno]. *)
Theorem stubs_commute_across_threads
    pidfd file file_actions attrp argv envp fd t1 t2 w :
  let spawn := pidfd_spawnp pidfd file file_actions attrp argv envp in
  let spawn_then_get :=
    final (run spawn t1 w) ≫= λ w1, final (run (pidfd_getpid fd) t2 w1) in
  let get_then_spawn :=
    final (run (pidfd_getpid fd) t2 w) ≫= λ w2, final (run spawn t1 w2) in
  spawn_then_get = get_then_spawn
  ∧ ∃ w', spawn_then_get = Some w'
          ∧ errno_of w' t1 = ENOSYS ∧ errno_of w' t2 = ENOSYS
          ∧ heap w' = heap w.
Proof.
  cbv zeta. rewrite !pidfd_spawnp_run, !pidfd_getpid_run.
  cbn [final fmap option_fmap option_map snd mbind option_bind].
  rewrite !pidfd_spawnp_run, !pidfd_getpid_run. simpl.
  split.
  - destruct (decide (t1 = t2)) as [->|Hne]; [done|].
    by rewrite insert_insert_ne.
  - eexists. split; [reflexivity|]. unfold errno_of. simpl.
    split; [|split; [|reflexivity]].
    + destruct (decide (t1 = t2)) as [->|Hne].
      * by rewrite lookup_insert_eq.
      * rewrite lookup_insert_ne by done. by rewrite lookup_insert_eq.
    + by rewrite lookup_insert_eq.
Qed.


(** X6. The wrappers do not clear [errno].  When a conversion follows a failed
    stub call in the same thread and the host routine leaves [errno] alone
    on that call, as it does when it reports no error, the caller still
    reads the stub's [ENOSYS] afterwards. *)
Theorem wrapper_keeps_stale_errno nptr endptr base fd t w w1 :
  final (run (pidfd_getpid fd) t w) = Some w1 →
  errno_after t (run (strtol nptr endptr base) t w1) = Some (errno_of w1 t) →
  errno_after t (run (pidfd_getpid fd;; __isoc23_strtol nptr endptr base) t w)
  = Some ENOSYS.
Proof.
  rewrite pidfd_getpid_run. simpl. intros [= <-] Hhost.
  rewrite errno_of_set in Hhost. rewrite <- Hhost.
  rewrite <- strtol_forwarded. reflexivity.
Qed.

End composition.

Lemma stubs_ignore_arguments_and_memory_witness :
  errno_tls (world_with "123") = errno_tls (world_with "0x1F")
  ∧ returned (run (pidfd_spawnp (errno_h := Glibc.linux_errno) NULL NULL NULL NULL NULL NULL) 0%nat
               (world_with "123"))
    = returned (run (pidfd_spawnp (errno_h := Glibc.linux_errno) slot_ptr text_ptr NULL NULL NULL NULL) 0%nat
                  (world_with "0x1F"))
  ∧ returned (run (pidfd_getpid (errno_h := Glibc.linux_errno) 42) 0%nat (world_with "123"))
    = returned (run (pidfd_getpid (errno_h := Glibc.linux_errno) 7) 0%nat (world_with "0x1F")).
Proof.
  split; [reflexivity|].
  pose proof (stubs_ignore_arguments_and_memory (errno_h := Glibc.linux_errno)
                NULL NULL NULL NULL NULL NULL
                slot_ptr text_ptr NULL NULL NULL NULL
                42 7 0%nat (world_with "123") (world_with "0x1F") eq_refl)
    as [[Hspawn _] [[Hget _] _]].
  split; [exact Hspawn | exact Hget].
Defined.


Lemma wrapper_keeps_stale_errno_witness :
  errno_after 0%nat
    (run (pidfd_getpid (errno_h := Glibc.linux_errno) 42;;
          __isoc23_strtol (stdlib_h := Glibc.lp64) text_ptr slot_ptr 10)
       0%nat (world_with "123"))
  = Some 38.
Proof.
  eapply (wrapper_keeps_stale_errno (errno_h := Glibc.linux_errno)
            (stdlib_h := Glibc.lp64) text_ptr slot_ptr 10 42 0%nat
            (world_with "123")).
  - reflexivity.
  - reflexivity.
Defined.
